(** * The dimod wrapper of qbsolv: [dwave_qbsolv/dimod_wrapper.py]

    A shallow embedding of the class [QBSolv] (constructor and [sample]) and
    of the parts of [dimod] it calls, followed by a model of the
    decomposing solver behind [run_qbsolv].

    Conventions.
    - Python numbers that are not tested for their type are exact rationals
      ([Qc]); rounding of binary floating point is not modelled.
    - Python dicts whose entries are summed or iterated are association
      lists in insertion order; dicts used as finite maps are [gmap]s.
    - [sample] is modelled under [dimod.decorators.bqm_index_labels], that
      is on a model whose variables are the indices [0 .. n-1]. *)

From Stdlib Require Import QArith Qcanon.
From stdpp Require Import numbers strings gmap fin_maps list.

Local Open Scope Z_scope.

(** ** Python values and exceptions *)

Inductive pyval :=
  | PyNone
  | PyBool (b : bool)
  | PyInt (z : Z)
  | PyFloat (q : Qc)
  | PyStr (s : string).

Global Instance pyval_eq_dec : EqDecision pyval.
Proof. solve_decision. Defined.

(** [isinstance(v, int)]: [bool] is a subclass of [int]. *)
Definition isinstance_int (v : pyval) : bool :=
  match v with
  | PyBool _ | PyInt _ => true
  | _ => false
  end.

(** The integer an instance of [int] stands for ([True == 1], [False == 0]). *)
Definition int_value (v : pyval) : Z :=
  match v with
  | PyInt z => z
  | PyBool true => 1
  | _ => 0
  end.

Inductive exn :=
  | ValueError (msg : string)
  | InvalidProblem
  | SubSolverError
  | InvalidConfiguration.

Global Instance exn_eq_dec : EqDecision exn.
Proof. solve_decision. Defined.

Inductive outcome (A : Type) :=
  | Returns (a : A)
  | Raises (e : exn)
  | Diverges.
Arguments Returns {A} a.
Arguments Raises {A} e.
Arguments Diverges {A}.

(** Integers as rationals. *)
Definition zq (z : Z) : Qc := Q2Qc (inject_Z z).

(** ** Data model of the solver (spec, section 3) *)

(** A QUBO dict [{(u, v): bias}]. *)
Abbreviation Coeffs := (list ((nat * nat) * Qc)) (only parsing).

(** An assignment: one binary value per variable index. *)
Abbreviation Assignment := (list bool) (only parsing).

(** Modelled from the spec: a Problem (section 3): the variables
    [0 .. n-1], the sparse coefficient mapping and the sense. *)
Record Problem := {
  n_vars : nat;
  coeff : Coeffs;
  maximize : bool
}.

(** The callable form of [solver] (a QUBO and the current best, giving a
    new solution), which is the Sub-Solver Contract of the spec (section
    4.5): a sub-problem and the current assignment restricted to it give a
    candidate, or the call fails.  An external solver is opaque: it may
    keep state of its own between calls or draw its own randomness, so a
    call reads the hidden state of the solver (a number) and leaves the
    next one. *)
Definition SubSolverFn : Type :=
  nat → Problem → Assignment → option (list Z * nat).

(** The constants [ENERGY_IMPACT] and [SOLUTION_DIVERSITY] imported from the
    binding. *)
Inductive Algorithm := ENERGY_IMPACT | SOLUTION_DIVERSITY.

Global Instance Algorithm_eq_dec : EqDecision Algorithm.
Proof. solve_decision. Defined.

(** The forms of the [solver] argument: the built-in tabu search
    (['tabu']), or an external one (['dw'], a dimod sampler, a callable). *)
Inductive Solver :=
  | SolverTabu
  | SolverExternal (f : SubSolverFn).

(** ** dimod: binary quadratic models *)

Inductive Vartype := SPIN | BINARY.

Global Instance Vartype_eq_dec : EqDecision Vartype.
Proof. solve_decision. Defined.

Record BQM := {
  linear : list (nat * Qc);
  quadratic : Coeffs;
  offset : Qc;
  vartype : Vartype
}.

(** [d[k] = v] on an insertion-ordered dict. *)
Fixpoint dict_set {K V : Type} `{EqDecision K} (k : K) (v : V)
    (d : list (K * V)) : list (K * V) :=
  match d with
  | [] => [(k, v)]
  | (k', v') :: d' =>
      if decide (k' = k) then (k, v) :: d' else (k', v') :: dict_set k v d'
  end.

(** [d.update(items)]. *)
Definition dict_update {K V : Type} `{EqDecision K}
    (d items : list (K * V)) : list (K * V) :=
  foldl (λ acc kv, dict_set kv.1 kv.2 acc) d items.

(** [d[k] = f(d[k])] for a key that is present. *)
Definition dict_alter {K V : Type} `{EqDecision K} (f : V → V) (k : K)
    (d : list (K * V)) : list (K * V) :=
  map (λ kv, if decide (kv.1 = k) then (kv.1, f kv.2) else kv) d.

Definition sum_values {K : Type} (d : list (K * Qc)) : Qc :=
  foldr (λ kv acc, (kv.2 + acc)%Qc) 0%Qc d.

(** The body of the loop of [spin_to_binary] over the quadratic biases:
    [new_quadratic[(u, v)] = 4. * bias], [new_linear[u] -= 2. * bias],
    [new_linear[v] -= 2. * bias]. *)
Definition spin_step (acc : list (nat * Qc) * list ((nat * nat) * Qc))
    (e : (nat * nat) * Qc) : list (nat * Qc) * list ((nat * nat) * Qc) :=
  (dict_alter (λ b, (b - zq 2 * e.2)%Qc) e.1.2
     (dict_alter (λ b, (b - zq 2 * e.2)%Qc) e.1.1 acc.1),
   dict_set e.1 (zq 4 * e.2)%Qc acc.2).

(** [BinaryQuadraticModel.spin_to_binary(linear, quadratic, offset)]. *)
Definition spin_to_binary (lin : list (nat * Qc)) (quad : Coeffs) (off : Qc)
    : list (nat * Qc) * Coeffs * Qc :=
  let new_linear := map (λ vb, (vb.1, (zq 2 * vb.2)%Qc)) lin in
  let acc := foldl spin_step (new_linear, []) quad in
  (acc.1, acc.2, (off + (sum_values quad - sum_values lin))%Qc).

(** [bqm.binary]: the model itself when it is binary, its conversion
    otherwise. *)
Definition binary (bqm : BQM) : BQM :=
  match vartype bqm with
  | BINARY => bqm
  | SPIN =>
      let '(l, q, o) := spin_to_binary (linear bqm) (quadratic bqm) (offset bqm) in
      {| linear := l; quadratic := q; offset := o; vartype := BINARY |}
  end.

(** [bqm.to_qubo()]: the quadratic biases, updated with the linear biases
    on the diagonal, and the offset. *)
Definition to_qubo (bqm : BQM) : Coeffs * Qc :=
  let b := binary bqm in
  (dict_update (quadratic b) (map (λ vb, ((vb.1, vb.1), vb.2)) (linear b)),
   offset b).

(** ** dimod: responses *)

Record Response := {
  record_sample : list (gmap nat Z);
  record_energy : list Qc;
  record_num_occurrences : list Z;
  info : gmap string pyval;
  resp_vartype : Vartype
}.

Global Instance Response_eq_dec : EqDecision Response.
Proof. solve_decision. Defined.

(** Both constructors build one row per sample; the data vectors must
    have one entry per row. *)
Definition build_response (samples : list (gmap nat Z)) (energies : list Qc)
    (counts : list Z) (inf : gmap string pyval) (vt : Vartype)
    : outcome Response :=
  if decide (length energies = length samples ∧ length counts = length samples)
  then Returns {| record_sample := samples; record_energy := energies;
                  record_num_occurrences := counts; info := inf;
                  resp_vartype := vt |}
  else Raises (ValueError "data vectors must match the number of samples").

(** [Response.from_dicts(samples, vectors, vartype)] (dimod 0.6). *)
Definition from_dicts (samples : list (gmap nat Z)) (energies : list Qc)
    (counts : list Z) (vt : Vartype) : outcome Response :=
  build_response samples energies counts ∅ vt.

(** [Response.from_samples(samples, vectors, info, vartype)] (dimod 0.7). *)
Definition from_samples (samples : list (gmap nat Z)) (energies : list Qc)
    (counts : list Z) (inf : gmap string pyval) (vt : Vartype)
    : outcome Response :=
  build_response samples energies counts inf vt.

(** The samples in another vartype: [2 * x - 1] from binary to spin,
    [(s + 1) // 2] from spin to binary. *)
Definition convert_samples (from to : Vartype) (samples : list (gmap nat Z))
    : list (gmap nat Z) :=
  match from, to with
  | BINARY, SPIN => fmap (M := list) (fmap (λ x, 2 * x - 1)) samples
  | SPIN, BINARY => fmap (M := list) (fmap (λ s, (s + 1) `div` 2)) samples
  | _, _ => samples
  end.

(** [response.change_vartype(vartype, {'energy': offsets})] (dimod 0.6):
    the offsets are added row by row. *)
Definition change_vartype_vectors (vt : Vartype) (offsets : list Qc)
    (r : Response) : Response :=
  {| record_sample := convert_samples (resp_vartype r) vt (record_sample r);
     record_energy := zip_with Qcplus (record_energy r) offsets;
     record_num_occurrences := record_num_occurrences r;
     info := info r;
     resp_vartype := vt |}.

(** [response.change_vartype(vartype, energy_offset=offset)] (dimod 0.7). *)
Definition change_vartype (vt : Vartype) (energy_offset : Qc)
    (r : Response) : Response :=
  {| record_sample := convert_samples (resp_vartype r) vt (record_sample r);
     record_energy := map (λ e, (e + energy_offset)%Qc) (record_energy r);
     record_num_occurrences := record_num_occurrences r;
     info := info r;
     resp_vartype := vt |}.

(** ** The keyword arguments of [run_qbsolv] and its answer *)

Module Kw.
Record t := {
  Q : Coeffs;
  num_repeats : pyval;
  seed : option Z;
  algorithm : option Algorithm;
  verbosity : Z;
  timeout : Qc;
  solver_limit : option nat;
  solver : option Solver;
  target : option Qc;
  find_max : bool;
  sample_kwargs : list (string * pyval)
}.
End Kw.

(** [samples, energies, counts]. *)
Abbreviation Answer := (list (gmap nat Z) * list Qc * list Z)%type (only parsing).

(** ** The Python store: objects, and the calls made to [run_qbsolv] *)

Abbreviation loc := nat (only parsing).

Inductive pyref := VNone | VRef (l : loc).

Global Instance pyref_eq_dec : EqDecision pyref.
Proof. solve_decision. Defined.

Inductive object :=
  | ODict (d : gmap string pyref)
  | OList (l : list pyref)
  | OInstance (attrs : gmap string pyref).

Global Instance object_eq_dec : EqDecision object.
Proof. solve_decision. Defined.

Record World := {
  heap : gmap loc object;
  calls : list Kw.t
}.

Definition Py (A : Type) : Type := World → outcome A * World.

Definition py_ret {A : Type} (a : A) : Py A := λ w, (Returns a, w).

Definition py_bind {A B : Type} (m : Py A) (k : A → Py B) : Py B :=
  λ w, match m w with
       | (Returns a, w') => k a w'
       | (Raises e, w') => (Raises e, w')
       | (Diverges, w') => (Diverges, w')
       end.

Definition raise {A : Type} (e : exn) : Py A := λ w, (Raises e, w).

Definition lift {A : Type} (o : outcome A) : Py A := λ w, (o, w).

Global Instance Py_ret : MRet Py := @py_ret.
Global Instance Py_bind : MBind Py := λ A B k m, py_bind m k.

(** Allocation of a new object at an unused location. *)
Definition alloc (o : object) : Py loc :=
  λ w, let l := fresh (dom (heap w)) in
       (Returns l, {| heap := <[l := o]> (heap w); calls := calls w |}).

(** The attributes of the class object [QBSolv]. *)
Definition class_attrs : gmap string pyref :=
  {[ "properties" := VNone; "parameters" := VNone ]}.

(** [getattr(self, name)]: the instance's own attribute, else the class's. *)
Definition getattr (w : World) (self : loc) (name : string) : option pyref :=
  match heap w !! self with
  | Some (OInstance attrs) =>
      match attrs !! name with
      | Some v => Some v
      | None => class_attrs !! name
      end
  | _ => None
  end.

(** [self.name = v]. *)
Definition setattr (self : loc) (name : string) (v : pyref) : Py unit :=
  λ w, match heap w !! self with
       | Some (OInstance attrs) =>
           (Returns (),
            {| heap := <[self := OInstance (<[name := v]> attrs)]> (heap w);
               calls := calls w |})
       | _ => (Raises (ValueError "not an instance"), w)
       end.

(** A dict display [{k1: [], k2: [], ...}]: one new empty list per key,
    allocated from left to right. *)
Fixpoint empty_lists (names : list string) : Py (list (string * pyref)) :=
  match names with
  | [] => mret []
  | k :: names' =>
      l ← alloc (OList []);
      rest ← empty_lists names';
      mret ((k, VRef l) :: rest)
  end.

Definition parameter_names : list string :=
  ["num_repeats"; "seed"; "algorithm"; "verbosity"; "timeout";
   "solver_limit"; "solver"; "target"; "find_max"; "sample_kwargs"].

(** The arguments of [sample] after [bqm]. *)
Record SampleArgs := {
  num_repeats : pyval;
  seed : option Z;
  algorithm : option Algorithm;
  verbosity : Z;
  timeout : Qc;
  solver_limit : option nat;
  solver : option Solver;
  target : option Qc;
  find_max : bool;
  sample_kwargs : list (string * pyval)
}.

(** The default values in the signature of [sample]. *)
Definition defaults : SampleArgs :=
  {| num_repeats := PyInt 50;
     seed := None;
     algorithm := None;
     verbosity := -1;
     timeout := zq 2592000;
     solver_limit := None;
     solver := None;
     target := None;
     find_max := false;
     sample_kwargs := [] |}.

Module QBSolv.
Section QBSolv.

(** The native entry point [dwave_qbsolv.qbsolv_binding.run_qbsolv]. *)
Variable run_qbsolv : Kw.t → outcome Answer.

(** [hasattr(dimod.Response, 'from_dicts')]: true for dimod 0.6 and
    earlier. *)
Variable has_from_dicts : bool.

Definition call_run_qbsolv (kw : Kw.t) : Py Answer :=
  λ w, (run_qbsolv kw, {| heap := heap w; calls := calls w ++ [kw] |}).

(** [QBSolv.__init__]. *)
Definition __init__ (self : loc) : Py unit :=
  props ← alloc (ODict ∅);
  _ ← setattr self "properties" (VRef props);
  items ← empty_lists parameter_names;
  params ← alloc (ODict (list_to_map items));
  setattr self "parameters" (VRef params).

(** [QBSolv()]: a new instance, initialised. *)
Definition new : Py loc :=
  self ← alloc (OInstance ∅);
  _ ← __init__ self;
  mret self.

(** [QBSolv.sample]. *)
Definition sample (bqm : BQM) (a : SampleArgs) : Py Response :=
  if negb (isinstance_int (num_repeats a)) then
    raise (ValueError "num_repeats must be a positive integer")
  else if int_value (num_repeats a) <=? 0 then
    raise (ValueError "num_repeats must be a positive integer")
  else
    let '(Q, offset) := to_qubo bqm in
    '(samples, energies, counts) ←
      call_run_qbsolv
        {| Kw.Q := Q; Kw.num_repeats := num_repeats a; Kw.seed := seed a;
           Kw.algorithm := algorithm a; Kw.verbosity := verbosity a;
           Kw.timeout := timeout a; Kw.solver_limit := solver_limit a;
           Kw.solver := solver a; Kw.target := target a;
           Kw.find_max := find_max a;
           Kw.sample_kwargs := sample_kwargs a |};
    if has_from_dicts then
      response ← lift (from_dicts samples energies counts BINARY);
      mret (change_vartype_vectors (vartype bqm)
                (replicate (length energies) offset) response)
    else
      response ← lift (from_samples samples energies counts ∅ BINARY);
      mret (change_vartype (vartype bqm) offset response).

End QBSolv.
End QBSolv.

(** ** The solver behind [run_qbsolv] (spec, sections 3 to 6)

    [run_qbsolv] is native code that the wrapper only imports.  The
    definitions of this part follow the specification of the solver; the
    constants and heuristics it leaves open are fields of [Tuning], and the
    surroundings of a run (entropy, wall clock, the state of an external
    solver) are fields of [Ambient]. *)

Local Open Scope nat_scope.

(** Modelled from the spec: a binary value (section 3) as a number. *)
Definition bit (b : bool) : Qc := if b then 1%Qc else 0%Qc.

(** Modelled from the spec: the value of variable [u] in an Assignment
    (section 3); the indices of a well-formed problem are in range. *)
Definition value (x : Assignment) (u : nat) : bool := default false (x !! u).

(** Modelled from the spec: the energy of an assignment (section 3), the
    sum over all coefficient entries of [coeff(u,v) * value(u) * value(v)];
    the function of the Problem Model that computes it is not in the
    sources. *)
Definition energy (cs : Coeffs) (x : Assignment) : Qc :=
  foldr (λ e acc, (e.2 * bit (value x e.1.1) * bit (value x e.1.2) + acc)%Qc)
        0%Qc cs.

(** Modelled from the spec: the comparison sense (section 4.6); [find_max]
    is one comparator parameter, [better maxi a b] says that energy [a] is
    strictly better than [b]. *)
Definition better (maxi : bool) (a b : Qc) : bool :=
  if maxi then bool_decide (b < a)%Qc else bool_decide (a < b)%Qc.

(** Modelled from the spec: at-or-better in the sense of the run, as the
    target rule compares (section 4.6). *)
Definition at_or_better (maxi : bool) (a b : Qc) : bool := negb (better maxi b a).

(** Modelled from the spec: the range check of the Problem Model (section
    4.1): every coefficient refers to variables below [n]. *)
Definition in_range (n : nat) (cs : Coeffs) : bool :=
  forallb (λ e, (e.1.1 <? n) && (e.1.2 <? n)) cs.

(** Modelled from the spec: construction of the Problem Model (section
    4.1), which fails with [InvalidProblem] on an index out of range. *)
Definition make_problem (n : nat) (cs : Coeffs) (maxi : bool) : outcome Problem :=
  if in_range n cs
  then Returns {| n_vars := n; coeff := cs; maximize := maxi |}
  else Raises InvalidProblem.

(** Modelled from the spec: the index set [0 .. n-1] (section 3) for the
    QUBO dict that [run_qbsolv] is given: [n] is one more than the largest
    index. *)
Definition variable_count (cs : Coeffs) : nat :=
  foldr (λ e acc, S (e.1.1 `max` e.1.2) `max` acc) 0 cs.

(** Modelled from the spec: the Random Stream (section 4.2), a seed and a
    cursor into the output sequence of the generator for that seed. *)
Record RandomStream := {
  stream_seed : Z;
  cursor : nat
}.

Global Instance RandomStream_eq_dec : EqDecision RandomStream.
Proof. solve_decision. Defined.

(** Modelled from the spec: a uniform integer in [[0, k)] from the Random
    Stream (section 4.2). *)
Definition uniform_int (gen : Z → nat → nat) (k : nat) (rs : RandomStream)
    : nat * RandomStream :=
  (gen (stream_seed rs) (cursor rs) `mod` k,
   {| stream_seed := stream_seed rs; cursor := S (cursor rs) |}).

(** Modelled from the spec: what a selection heuristic of the Decomposer
    reads (section 4.3): the magnitude of the energy change of each single
    flip, the pairs coupled by a nonzero quadratic coefficient, and the
    recent assignments and subsets. *)
Record SelectionView := {
  view_n : nat;
  view_limit : nat;
  impact : list Qc;
  coupled : list (nat * nat);
  past_assignments : list Assignment;
  past_subsets : list (list nat)
}.

(** Modelled from the spec: the parts of the solver that the specification
    leaves open: the generator behind the Random Stream (section 4.2), the
    tenure, the step budget per variable and the stagnation cutoff of the
    Tabu Search Engine (section 4.4), the sub-problem limit derived from the
    size of the problem (section 6), and the two selection heuristics of the
    Decomposer (section 4.3). *)
Record Tuning := {
  generator : Z → nat → nat;
  tenure : nat;
  steps_per_variable : nat;
  stagnation : nat;
  default_limit : nat → nat;
  select : Algorithm → SelectionView → list nat
}.

(** Modelled from the spec: the surroundings of one run: the entropy
    source that seeds a run without a seed (section 4.2), the elapsed
    wall-clock time read at the stopping checks of each iteration (section
    4.6), and the hidden state in which the run finds an external solver
    (section 4.5). *)
Record Ambient := {
  entropy : Z;
  clock : nat → Qc;
  hidden : nat
}.

(** *** Sub-problems *)

(** Modelled from the spec: the index of a variable within the subset of a
    SubProblem (section 3). *)
Fixpoint index_of (sub : list nat) (u : nat) : option nat :=
  match sub with
  | [] => None
  | s :: sub' => if decide (s = u) then Some 0 else S <$> index_of sub' u
  end.

(** Modelled from the spec: fixation (section 3); a term between a fixed
    and a free variable becomes a linear term of the free one, scaled by
    the fixed value. *)
Definition fold_entry (sub : list nat) (x : Assignment) (e : (nat * nat) * Qc)
    : Coeffs :=
  match index_of sub e.1.1, index_of sub e.1.2 with
  | Some i, Some j => [((i, j), e.2)]
  | Some i, None => [((i, i), (e.2 * bit (value x e.1.2))%Qc)]
  | None, Some j => [((j, j), (e.2 * bit (value x e.1.1))%Qc)]
  | None, None => []
  end.

(** Modelled from the spec: the SubProblem (section 3), the restriction of
    the problem to a subset, in the sense of the problem. *)
Definition subproblem (P : Problem) (sub : list nat) (x : Assignment) : Problem :=
  {| n_vars := length sub;
     coeff := flat_map (fold_entry sub x) (coeff P);
     maximize := maximize P |}.

(** Modelled from the spec: the current assignment restricted to the
    subset (section 4.5). *)
Definition restrict (sub : list nat) (x : Assignment) : Assignment :=
  map (value x) sub.

(** Modelled from the spec: the merge of state Iterate (section 4.6): the
    candidate for the subset written into the global assignment, the other
    variables unchanged. *)
Definition merge (sub : list nat) (cand : Assignment) (x : Assignment) : Assignment :=
  foldl (λ acc sb, <[sb.1 := sb.2]> acc) x (zip sub cand).

(** *** Tabu search (section 4.4) *)

(** Modelled from the spec: the TabuState (section 3): the tabu-until
    counter of each variable, the current local assignment and the best
    local assignment. *)
Record TabuState := {
  tabu_until : list nat;
  current : Assignment;
  best_local : Assignment
}.

Global Instance TabuState_eq_dec : EqDecision TabuState.
Proof. solve_decision. Defined.

(** Modelled from the spec: a bit flip (section 4.4). *)
Definition flip (x : Assignment) (i : nat) : Assignment := alter negb i x.

(** Modelled from the spec: the energy delta of a flip (section 4.4); the
    incremental evaluation of the specification gives this value. *)
Definition delta (cs : Coeffs) (x : Assignment) (i : nat) : Qc :=
  (energy cs (flip x i) - energy cs x)%Qc.

(** Modelled from the spec: a variable is tabu at step [t] until its
    counter is passed (section 4.4). *)
Definition is_tabu (st : TabuState) (t i : nat) : bool :=
  bool_decide (t ≤ default 0 (tabu_until st !! i)).

(** Modelled from the spec: a variable may be flipped when it is not tabu,
    or when flipping it beats the best local energy so far, the aspiration
    override (section 4.4). *)
Definition candidate (sp : Problem) (st : TabuState) (t i : nat) : bool :=
  negb (is_tabu st t i)
  || better (maximize sp) (energy (coeff sp) (flip (current st) i))
            (energy (coeff sp) (best_local st)).

(** Modelled from the spec: the variables that may be flipped at step [t]
    (section 4.4). *)
Definition candidates (sp : Problem) (st : TabuState) (t : nat) : list nat :=
  List.filter (candidate sp st t) (seq 0 (n_vars sp)).

(** Modelled from the spec: the flips with the most negative delta (the
    best one in the sense of the run): those that no other candidate beats
    (section 4.4). *)
Definition best_flips (maxi : bool) (ds : list (nat * Qc)) : list nat :=
  map fst
    (List.filter (λ d, forallb (λ d', negb (better maxi d'.2 d.2)) ds) ds).

(** Modelled from the spec: ties are broken by the Random Stream (section
    4.4); a single best move needs no draw. *)
Definition choose (gen : Z → nat → nat) (ties : list nat) (rs : RandomStream)
    : option nat * RandomStream :=
  match ties with
  | [] => (None, rs)
  | [i] => (Some i, rs)
  | _ => let r := uniform_int gen (length ties) rs in (ties !! r.1, r.2)
  end.

(** Modelled from the spec: the moves of a step (section 4.4): the
    candidates whose delta no other candidate beats. *)
Definition best_moves (sp : Problem) (st : TabuState) (t : nat) : list nat :=
  best_flips (maximize sp)
    (map (λ i, (i, delta (coeff sp) (current st) i)) (candidates sp st t)).

(** Modelled from the spec: variable [i] flipped at step [t] (section 4.4):
    it is tabu for the next [tenure] steps, and the best local assignment
    follows a strictly better energy.  The flag says whether the move
    improved the current energy. *)
Definition make_move (tenure : nat) (sp : Problem) (t : nat) (st : TabuState)
    (i : nat) : TabuState * bool :=
  let cs := coeff sp in
  let x' := flip (current st) i in
  ({| tabu_until := <[i := t + tenure]> (tabu_until st);
      current := x';
      best_local :=
        if better (maximize sp) (energy cs x') (energy cs (best_local st))
        then x' else best_local st |},
   better (maximize sp) (energy cs x') (energy cs (current st))).

(** Modelled from the spec: one inner step of the Tabu Search Engine
    (section 4.4), which is not in the sources: the best move among the
    candidates, ties broken by the Random Stream; no move when there is no
    candidate. *)
Definition tabu_step (tn : Tuning) (sp : Problem) (t : nat) (st : TabuState)
    (rs : RandomStream) : TabuState * bool * RandomStream :=
  let c := choose (generator tn) (best_moves sp st t) rs in
  match c.1 with
  | None => (st, false, c.2)
  | Some i => (make_move (tenure tn) sp t st i, c.2)
  end.

(** Modelled from the spec: the inner loop (section 4.4): at most [steps]
    steps, cut off after [stagnation] consecutive steps without an improving
    move. *)
Fixpoint tabu_loop (tn : Tuning) (sp : Problem) (steps t idle : nat)
    (st : TabuState) (rs : RandomStream) : TabuState * RandomStream :=
  match steps with
  | 0 => (st, rs)
  | S steps' =>
      if bool_decide (stagnation tn ≤ idle) then (st, rs)
      else
        let r := tabu_step tn sp t st rs in
        tabu_loop tn sp steps' (S t) (if r.1.2 then 0 else S idle) r.1.1 r.2
  end.

(** Modelled from the spec: the Tabu Search Engine (section 4.4); a new
    TabuState per call, a step budget proportional to the size of the
    sub-problem, and the best local assignment as the result. *)
Definition tabu_search (tn : Tuning) (sp : Problem) (start : Assignment)
    (rs : RandomStream) : Assignment * RandomStream :=
  let st0 := {| tabu_until := replicate (n_vars sp) 0;
                current := start; best_local := start |} in
  let r := tabu_loop tn sp (steps_per_variable tn * n_vars sp) 1 0 st0 rs in
  (best_local r.1, r.2).

(** *** The Decomposer (section 4.3) *)

(** Modelled from the spec: the magnitude of an energy change (section
    4.3). *)
Definition magnitude (q : Qc) : Qc :=
  if bool_decide (q < 0)%Qc then (- q)%Qc else q.

(** Modelled from the spec: the data of section 4.3 for the current global
    assignment. *)
Definition selection_view (P : Problem) (limit : nat) (x : Assignment)
    (seen_x : list Assignment) (seen_s : list (list nat)) : SelectionView :=
  {| view_n := n_vars P;
     view_limit := limit;
     impact := map (λ v, magnitude (delta (coeff P) x v)) (seq 0 (n_vars P));
     coupled := map fst (filter (λ e, e.1.1 ≠ e.1.2 ∧ e.2 ≠ 0%Qc) (coeff P));
     past_assignments := seen_x;
     past_subsets := seen_s |}.

(** Modelled from the spec: the Decomposer (section 4.3), which is not in
    the sources.  A problem that fits the limit is one sub-problem;
    otherwise the heuristic chooses, and the subset keeps at most [limit]
    distinct variables of the problem. *)
Definition decompose (tn : Tuning) (alg : Algorithm) (P : Problem) (limit : nat)
    (x : Assignment) (seen_x : list Assignment) (seen_s : list (list nat))
    : list nat :=
  if bool_decide (n_vars P ≤ limit) then seq 0 (n_vars P)
  else take limit
         (remove_dups
            (filter (λ v, v < n_vars P)
               (select tn alg (selection_view P limit x seen_x seen_s)))).

(** *** The Sub-Solver Contract (section 4.5) *)

(** Modelled from the spec: a binary value of a candidate (section 4.5). *)
Definition binary_value (z : Z) : option bool :=
  if decide (z = 0%Z) then Some false
  else if decide (z = 1%Z) then Some true else None.

(** Modelled from the spec: a candidate of the wrong length or with a
    non-binary value is malformed (section 4.5). *)
Definition well_formed (k : nat) (c : list Z) : option Assignment :=
  if decide (length c = k) then mapM binary_value c else None.

(** Modelled from the spec: the Sub-Solver Contract (section 4.5): the
    built-in tabu search, which draws from the Random Stream and has no
    state of its own, or an external solver, which goes from one hidden
    state to the next and whose failure or malformed answer is an error. *)
Definition sub_solve (tn : Tuning) (s : Solver) (sp : Problem)
    (start : Assignment) (rs : RandomStream) (h : nat)
    : option (Assignment * RandomStream * nat) :=
  match s with
  | SolverTabu => Some (tabu_search tn sp start rs, h)
  | SolverExternal f =>
      c ← f h sp start;
      a ← well_formed (length start) c.1;
      Some (a, rs, c.2)
  end.

(** *** The Orchestrator (section 4.6) *)

(** Modelled from the spec: the stop reasons (section 4.6). *)
Inductive StopReason := Timeout | TargetReached | RepeatsExhausted.

Global Instance StopReason_eq_dec : EqDecision StopReason.
Proof. solve_decision. Defined.

(** Modelled from the spec: the configuration of a run (section 6). *)
Record Config := {
  repeats : nat;
  heuristic : Algorithm;
  time_limit : Qc;
  limit : nat;
  sub_solver : Solver;
  target_energy : option Qc
}.

(** Modelled from the spec: the state of the Orchestrator (section 4.6): the
    global assignment, the BestSolution, the iteration counter, the
    iterations since the last improvement, the Random Stream, the hidden
    state of an external solver, and the history the Decomposer reads. *)
Record OrchState := {
  global : Assignment;
  best : Assignment * Qc;
  iteration : nat;
  since_improvement : nat;
  stream : RandomStream;
  solver_state : nat;
  seen_assignments : list Assignment;
  seen_subsets : list (list nat)
}.

Global Instance OrchState_eq_dec : EqDecision OrchState.
Proof. solve_decision. Defined.

(** Modelled from the spec: a random initial assignment (section 4.6), one
    draw per variable. *)
Fixpoint random_assignment (gen : Z → nat → nat) (n : nat) (rs : RandomStream)
    : Assignment * RandomStream :=
  match n with
  | 0 => ([], rs)
  | S n' =>
      let r := uniform_int gen 2 rs in
      let rest := random_assignment gen n' r.2 in
      (bool_decide (r.1 = 1) :: rest.1, rest.2)
  end.

(** Modelled from the spec: state Init of the Orchestrator (section 4.6). *)
Definition init (tn : Tuning) (P : Problem) (seed : Z) (h : nat)
    : OrchState :=
  let r := random_assignment (generator tn) (n_vars P)
             {| stream_seed := seed; cursor := 0 |} in
  {| global := r.1;
     best := (r.1, energy (coeff P) r.1);
     iteration := 0;
     since_improvement := 0;
     stream := r.2;
     solver_state := h;
     seen_assignments := [];
     seen_subsets := [] |}.

(** Modelled from the spec: state Iterate of the Orchestrator (section
    4.6): decompose, solve, merge, recompute the energy, and replace the
    best solution when the new energy is strictly better.  [None] is a
    failure of the sub-solver. *)
Definition iterate_once (tn : Tuning) (cfg : Config) (P : Problem)
    (st : OrchState) : option OrchState :=
  let sub := decompose tn (heuristic cfg) P (limit cfg) (global st)
               (seen_assignments st) (seen_subsets st) in
  let sp := subproblem P sub (global st) in
  r ← sub_solve tn (sub_solver cfg) sp (restrict sub (global st)) (stream st)
        (solver_state st);
  let x := merge sub r.1.1 (global st) in
  let e := energy (coeff P) x in
  let improved := better (maximize P) e (best st).2 in
  Some {| global := x;
          best := if improved then (x, e) else best st;
          iteration := S (iteration st);
          since_improvement := if improved then 0 else S (since_improvement st);
          stream := r.1.2;
          solver_state := r.2;
          seen_assignments := x :: seen_assignments st;
          seen_subsets := sub :: seen_subsets st |}.

(** Modelled from the spec: the stopping checks (section 4.6), in their
    priority order: timeout, target, repeat budget. *)
Definition stop_check (am : Ambient) (cfg : Config) (P : Problem)
    (st : OrchState) : option StopReason :=
  if bool_decide (time_limit cfg ≤ clock am (iteration st))%Qc then Some Timeout
  else if match target_energy cfg with
          | Some goal => at_or_better (maximize P) (best st).2 goal
          | None => false
          end then Some TargetReached
  else if bool_decide (repeats cfg ≤ since_improvement st) then
    Some RepeatsExhausted
  else None.

(** Modelled from the spec: the outer loop (section 4.6): iterate, then
    check; [fuel] bounds the number of iterations, and running out of it is
    [Diverges]. *)
Fixpoint iterate (tn : Tuning) (am : Ambient) (cfg : Config) (P : Problem)
    (fuel : nat) (st : OrchState)
    : outcome (Assignment * Qc * StopReason) :=
  match fuel with
  | 0 => Diverges
  | S fuel' =>
      match iterate_once tn cfg P st with
      | None => Raises SubSolverError
      | Some st' =>
          match stop_check am cfg P st' with
          | Some reason => Returns (best st', reason)
          | None => iterate tn am cfg P fuel' st'
          end
      end
  end.

(** Modelled from the spec: a run of the Orchestrator (section 4.6), from
    Init to Stopped, returning the best solution and the stop reason. *)
Definition solve (tn : Tuning) (am : Ambient) (cfg : Config) (P : Problem)
    (seed : Z) (fuel : nat) : outcome (Assignment * Qc * StopReason) :=
  iterate tn am cfg P fuel (init tn P seed (hidden am)).

(** Modelled from the spec: the dict [{i: x_i}] of an assignment, as
    [run_qbsolv] returns its samples. *)
Definition sample_of_assignment (x : Assignment) : gmap nat Z :=
  map_seq 0 (map (λ b : bool, if b then 1%Z else 0%Z) x).

(** Modelled from the spec: the output of section 6 as the three lists the
    wrapper unpacks: the best solution, its energy, and the occurrence count
    1; the stop reason has no place in them. *)
Definition answer_of (r : outcome (Assignment * Qc * StopReason))
    : outcome Answer :=
  match r with
  | Returns (x, e, _) => Returns ([sample_of_assignment x], [e], [1%Z])
  | Raises err => Raises err
  | Diverges => Diverges
  end.

(** Modelled from the spec: the configuration from the keyword arguments
    (section 6): an absent algorithm is [ENERGY_IMPACT], an absent solver
    the built-in tabu search, an absent limit is derived from the size of
    the problem. *)
Definition config_of (tn : Tuning) (kw : Kw.t) : Config :=
  {| repeats := Z.to_nat (int_value (Kw.num_repeats kw));
     heuristic := default ENERGY_IMPACT (Kw.algorithm kw);
     time_limit := Kw.timeout kw;
     limit := default (default_limit tn (variable_count (Kw.Q kw)))
                (Kw.solver_limit kw);
     sub_solver := default SolverTabu (Kw.solver kw);
     target_energy := Kw.target kw |}.

(** Modelled from the spec: [run_qbsolv], which is native code outside the
    sources: the external interface of section 6 on top of the
    Orchestrator.  A seed that is absent comes from the entropy source; the
    answer is the best solution, with occurrence count 1. *)
Definition run_qbsolv_model (tn : Tuning) (am : Ambient) (fuel : nat)
    (kw : Kw.t) : outcome Answer :=
  if bool_decide (int_value (Kw.num_repeats kw) ≤ 0)%Z
     || bool_decide (Kw.solver_limit kw = Some 0) then
    Raises InvalidConfiguration
  else
    match make_problem (variable_count (Kw.Q kw)) (Kw.Q kw) (Kw.find_max kw) with
    | Returns P =>
        answer_of
          (solve tn am (config_of tn kw) P
             (default (entropy am) (Kw.seed kw)) fuel)
    | Raises err => Raises err
    | Diverges => Diverges
    end.

(** ** Examples used below *)

(** The Ising problem of the class docstring. *)
Definition ising_example : BQM :=
  {| linear := [(0, zq (-1)); (1, zq 1); (2, zq (-1))];
     quadratic := [((0, 1), zq (-1)); ((1, 2), zq (-1))];
     offset := 0%Qc;
     vartype := SPIN |}.

(** The QUBO of the docstring of [sample]. *)
Definition qubo_example : BQM :=
  {| linear := [(0, zq 1); (1, zq 1)];
     quadratic := [((0, 1), zq 1)];
     offset := 0%Qc;
     vartype := BINARY |}.

(** Variables by decreasing impact, ties by index: insertion into a sorted
    list. *)
Fixpoint insert_by_impact (imp : list Qc) (v : nat) (l : list nat) : list nat :=
  match l with
  | [] => [v]
  | u :: l' =>
      if bool_decide (default 0%Qc (imp !! u) < default 0%Qc (imp !! v))%Qc
      then v :: l
      else u :: insert_by_impact imp v l'
  end.

Definition by_impact (v : SelectionView) : list nat :=
  foldr (insert_by_impact (impact v)) [] (seq 0 (view_n v)).

(** The variables after the one chosen [k] subsets ago, in a round. *)
Definition in_turn (v : SelectionView) : list nat :=
  rotate (length (past_subsets v)) (seq 0 (view_n v)).

(** One choice of the parts of the solver that the specification leaves
    open. *)
Definition tuning_example : Tuning :=
  {| generator := λ s i, Z.to_nat s + i;
     tenure := 2;
     steps_per_variable := 2;
     stagnation := 4;
     default_limit := λ n, n;
     select := λ alg v,
       match alg with
       | ENERGY_IMPACT => by_impact v
       | SOLUTION_DIVERSITY => in_turn v
       end |}.

Definition ambient_example : Ambient :=
  {| entropy := 7%Z; clock := λ _, 0%Qc; hidden := 0 |}.

Definition empty_world : World := {| heap := ∅; calls := [] |}.

Definition set_num_repeats (v : pyval) (a : SampleArgs) : SampleArgs :=
  {| num_repeats := v; seed := seed a; algorithm := algorithm a;
     verbosity := verbosity a; timeout := timeout a;
     solver_limit := solver_limit a; solver := solver a; target := target a;
     find_max := find_max a; sample_kwargs := sample_kwargs a |}.






(** The keyword arguments [sample] passes to [run_qbsolv]. *)
Definition kw_of (bqm : BQM) (a : SampleArgs) : Kw.t :=
  {| Kw.Q := (to_qubo bqm).1; Kw.num_repeats := num_repeats a;
     Kw.seed := seed a; Kw.algorithm := algorithm a;
     Kw.verbosity := verbosity a; Kw.timeout := timeout a;
     Kw.solver_limit := solver_limit a; Kw.solver := solver a;
     Kw.target := target a; Kw.find_max := find_max a;
     Kw.sample_kwargs := sample_kwargs a |}.

Definition num_repeats_error : exn :=
  ValueError "num_repeats must be a positive integer".

(** When the check passes, [sample] is one call of [run_qbsolv] followed by
    the construction of the response. *)
Definition finish (hf : bool) (bqm : BQM) (ans : Answer) : outcome Response :=
  let '(samples, energies, counts) := ans in
  match build_response samples energies counts ∅ BINARY with
  | Returns r =>
      Returns (if hf
               then change_vartype_vectors (vartype bqm)
                      (replicate (length energies) (to_qubo bqm).2) r
               else change_vartype (vartype bqm) (to_qubo bqm).2 r)
  | Raises e => Raises e
  | Diverges => Diverges
  end.

Definition after_call (hf : bool) (bqm : BQM) (o : outcome Answer)
    : outcome Response :=
  match o with
  | Returns ans => finish hf bqm ans
  | Raises e => Raises e
  | Diverges => Diverges
  end.

(** A response carries a stop reason when some entry of its [info] names
    one; the samples and the data vectors hold numbers only. *)
Definition stop_reason_names : list string :=
  ["Timeout"; "TargetReached"; "RepeatsExhausted"].

Definition carries_stop_reason (r : Response) : Prop :=
  ∃ k name, info r !! k = Some (PyStr name) ∧ name ∈ stop_reason_names.

Global Instance outcome_eq_dec {A : Type} `{EqDecision A} : EqDecision (outcome A).
Proof. solve_decision. Defined.

(** The response of the docstring of [sample]: [{0: 0, 1: 0}] at energy
    [0.0]. *)
Definition qubo_response : Response :=
  {| record_sample := [sample_of_assignment [false; false]];
     record_energy := [0%Qc];
     record_num_occurrences := [1%Z];
     info := ∅;
     resp_vartype := BINARY |}.

(** [w'] has every object of [w], unchanged, and the same calls. *)
Definition extends (w w' : World) : Prop :=
  calls w' = calls w ∧ ∀ l o, heap w !! l = Some o → heap w' !! l = Some o.

(** The response to the Ising example when [run_qbsolv] answers
    [{0: 1, 1: 1, 2: 1}] at [-2.0]: the spins [{0: 1, 1: 1, 2: 1}], and the
    offset [-1.0] of the conversion added to the energy. *)
Definition ising_response : Response :=
  {| record_sample := [map_seq 0 [1; 1; 1]%Z];
     record_energy := [zq (-3)];
     record_num_occurrences := [1%Z];
     info := ∅;
     resp_vartype := SPIN |}.

(** ** Negated problems *)

























(** ** Offsets and values of samples *)

(** The model with [c] added to its offset ([bqm.add_offset(c)]). *)
Definition add_offset (c : Qc) (bqm : BQM) : BQM :=
  {| linear := linear bqm;
     quadratic := quadratic bqm;
     offset := (offset bqm + c)%Qc;
     vartype := vartype bqm |}.

(** An outcome without the values of its energies: the samples, the numbers
    of occurrences, the info, the vartype, and one energy per row. *)
Definition without_energies (o : outcome Response) : outcome Response :=
  match o with
  | Returns r =>
      Returns {| record_sample := record_sample r;
                 record_energy := replicate (length (record_energy r)) 0%Qc;
                 record_num_occurrences := record_num_occurrences r;
                 info := info r;
                 resp_vartype := resp_vartype r |}
  | Raises e => Raises e
  | Diverges => Diverges
  end.

(** Samples whose values are all binary, or all spins. *)
Definition binary_valued (s : gmap nat Z) : Prop :=
  ∀ v x, s !! v = Some x → x = 0%Z ∨ x = 1%Z.

Definition spin_valued (s : gmap nat Z) : Prop :=
  ∀ v x, s !! v = Some x → x = (-1)%Z ∨ x = 1%Z.

(** The value a sample gives to a variable of the model: [1] as a spin
    where the binary value is [1], [-1] where it is [0]. *)
Definition value_in (vt : Vartype) (b : Z) : Z :=
  match vt with
  | BINARY => b
  | SPIN => (2 * b - 1)%Z
  end.

(** A binary sample in the vartype of the model. *)
Definition in_vartype (vt : Vartype) (s : gmap nat Z) : gmap nat Z :=
  value_in vt <$> s.

(** What dimod keeps true of a model: a dict has each key once, and every
    interaction is between two distinct variables of the model. *)
Definition consistent (bqm : BQM) : Prop :=
  NoDup (linear bqm).*1
  ∧ NoDup (quadratic bqm).*1
  ∧ Forall (λ e, e.1.1 ≠ e.1.2 ∧ e.1.1 ∈ (linear bqm).*1
                 ∧ e.1.2 ∈ (linear bqm).*1) (quadratic bqm).

(** The diagonal entries [to_qubo] makes of the linear biases. *)
Definition diagonal (l : list (nat * Qc)) : Coeffs :=
  map (λ vb, ((vb.1, vb.1), vb.2)) l.

(** An outcome whose binary response is read in the vartype [vt]: the
    samples converted, the energies as they are. *)
Definition response_in (vt : Vartype) (o : outcome Response) : outcome Response :=
  match o with
  | Returns r =>
      Returns {| record_sample :=
                   convert_samples (resp_vartype r) vt (record_sample r);
                 record_energy := record_energy r;
                 record_num_occurrences := record_num_occurrences r;
                 info := info r;
                 resp_vartype := vt |}
  | Raises e => Raises e
  | Diverges => Diverges
  end.

(** ** The objects of an instance *)

(** The objects an instance reaches in a store: itself, the objects its
    attributes name, and the objects held by a dict among those. *)
Definition attribute_object (w : World) (self l : loc) : Prop :=
  ∃ name, getattr w self name = Some (VRef l).

Definition held_by (w : World) (d l : loc) : Prop :=
  ∃ m k, heap w !! d = Some (ODict m) ∧ m !! k = Some (VRef l).

Definition reaches (w : World) (self l : loc) : Prop :=
  l = self
  ∨ attribute_object w self l
  ∨ ∃ d, attribute_object w self d ∧ held_by w d l.

(** * Properties of the wrapper *)

Lemma sample_invalid run hf bqm a w :
  isinstance_int (num_repeats a) = false ∨ (int_value (num_repeats a) ≤ 0)%Z →
  QBSolv.sample run hf bqm a w = (Raises num_repeats_error, w).
Proof.
  intros H. unfold QBSolv.sample.
  destruct (isinstance_int (num_repeats a)) eqn:Hi; simpl; [|done].
  destruct H as [H|H]; [done|].
  apply Z.leb_le in H. by rewrite H.
Qed.

Lemma sample_valid run hf bqm a w :
  isinstance_int (num_repeats a) = true → (0 < int_value (num_repeats a))%Z →
  QBSolv.sample run hf bqm a w =
    (after_call hf bqm (run (kw_of bqm a)),
     {| heap := heap w; calls := calls w ++ [kw_of bqm a] |}).
Proof.
  intros Hi Hp. unfold QBSolv.sample, kw_of, after_call, finish.
  rewrite Hi. apply Z.leb_gt in Hp. rewrite Hp. cbn [negb].
  destruct (to_qubo bqm) as [Q off]. cbn [fst snd].
  unfold mbind, Py_bind, py_bind, QBSolv.call_run_qbsolv, from_dicts,
    from_samples, lift, mret, Py_ret, py_ret.
  destruct (run _) as [[[samples energies] counts]|e|]; [|done..].
  destruct hf; destruct (build_response _ _ _ _ _); done.
Qed.

(** Closed goals over decidable data, by evaluation. *)
Ltac by_evaluation :=
  apply (bool_decide_eq_true_1 _); vm_compute; reflexivity.

Lemma zip_with_replicate (es : list Qc) (off : Qc) :
  zip_with Qcplus es (replicate (length es) off) = map (λ e, (e + off)%Qc) es.
Proof. induction es as [|e es IH]; simpl; [done|]. by rewrite IH. Qed.

(** A call that returns went through the check, called [run_qbsolv] once,
    and built the response from its answer. *)
Lemma sample_returns run hf bqm a w r :
  (QBSolv.sample run hf bqm a w).1 = Returns r →
  ∃ samples energies counts,
    run (kw_of bqm a) = Returns (samples, energies, counts)
    ∧ length energies = length samples
    ∧ length counts = length samples
    ∧ r = {| record_sample := convert_samples BINARY (vartype bqm) samples;
             record_energy := map (λ e, (e + (to_qubo bqm).2)%Qc) energies;
             record_num_occurrences := counts;
             info := ∅;
             resp_vartype := vartype bqm |}.
Proof.
  intros H.
  destruct (isinstance_int (num_repeats a)) eqn:Hi;
    [|by rewrite sample_invalid in H; [|left]].
  destruct (decide (int_value (num_repeats a) ≤ 0)%Z) as [Hn|Hp];
    [by rewrite sample_invalid in H; [|right]|].
  rewrite sample_valid in H by (done || lia). simpl in H.
  destruct (run (kw_of bqm a)) as [[[samples energies] counts]|e|] eqn:Hrun;
    simpl in H; try done.
  exists samples, energies, counts. split; [done|].
  unfold build_response in H. case_decide as Hlen; [|done].
  destruct Hlen as [He Hc]. do 2 (split; [done|]).
  destruct hf; inversion H as [Hr]; unfold change_vartype_vectors, change_vartype;
    simpl; [by rewrite zip_with_replicate|done].
Qed.

(** C1: a call of [sample] whose [num_repeats] is not an instance of [int],
    or is not positive, raises the [ValueError] of the check and leaves the
    store as it found it: [run_qbsolv] has not been called and no response
    has been built. *)
Theorem sample_rejects_num_repeats run hf bqm a w :
  isinstance_int (num_repeats a) = false ∨ (int_value (num_repeats a) ≤ 0)%Z →
  QBSolv.sample run hf bqm a w = (Raises num_repeats_error, w)
  ∧ calls (QBSolv.sample run hf bqm a w).2 = calls w.
Proof. intros H. by rewrite sample_invalid. Qed.

Lemma sample_rejects_num_repeats_witness :
  (isinstance_int (num_repeats (set_num_repeats (PyInt 0) defaults)) = false
   ∨ (int_value (num_repeats (set_num_repeats (PyInt 0) defaults)) ≤ 0)%Z)
  ∧ QBSolv.sample (run_qbsolv_model tuning_example ambient_example 100) false
      qubo_example (set_num_repeats (PyInt 0) defaults) empty_world
    = (Raises num_repeats_error, empty_world).
Proof.
  split; [right; simpl; lia|].
  apply (sample_rejects_num_repeats
           (run_qbsolv_model tuning_example ambient_example 100) false
           qubo_example (set_num_repeats (PyInt 0) defaults) empty_world).
  right. simpl. lia.
Defined.

(** C8: [num_repeats] must be an instance of [int]: a value of another type,
    such as the float [50.0], raises the [ValueError] although it is
    positive, while [True] passes the check ([bool] is a subclass of [int]
    and [True > 0]): [run_qbsolv] is called with it and the call goes on to
    build the response. *)
Theorem sample_num_repeats_int_type run hf bqm a w v :
  isinstance_int v = false →
  QBSolv.sample run hf bqm (set_num_repeats v a) w
    = (Raises num_repeats_error, w)
  ∧ QBSolv.sample run hf bqm (set_num_repeats (PyBool true) a) w
    = (after_call hf bqm (run (kw_of bqm (set_num_repeats (PyBool true) a))),
       {| heap := heap w;
          calls := calls w ++ [kw_of bqm (set_num_repeats (PyBool true) a)] |})
  ∧ Kw.num_repeats (kw_of bqm (set_num_repeats (PyBool true) a)) = PyBool true.
Proof.
  intros Hv. split; [by apply sample_invalid; left|].
  split; [by apply sample_valid|done].
Qed.

Lemma sample_num_repeats_int_type_witness :
  isinstance_int (PyFloat (zq 50)) = false
  ∧ (0 < zq 50)%Qc
  ∧ QBSolv.sample (run_qbsolv_model tuning_example ambient_example 100) false
      qubo_example (set_num_repeats (PyFloat (zq 50)) defaults) empty_world
    = (Raises num_repeats_error, empty_world).
Proof.
  split; [reflexivity|]. split; [reflexivity|].
  apply (sample_num_repeats_int_type
           (run_qbsolv_model tuning_example ambient_example 100) false
           qubo_example defaults empty_world (PyFloat (zq 50))).
  reflexivity.
Defined.

(** C5: the defaults of [sample].  A call that gives only the model passes
    [num_repeats = 50], no algorithm, a timeout of 2592000 seconds (thirty
    days) and [find_max = False] to [run_qbsolv], for which an absent
    algorithm is [ENERGY_IMPACT] and [find_max = False] is minimization. *)
Theorem sample_default_configuration run hf bqm w tn :
  let kw := kw_of bqm defaults in
  calls (QBSolv.sample run hf bqm defaults w).2 = calls w ++ [kw]
  ∧ Kw.num_repeats kw = PyInt 50
  ∧ repeats (config_of tn kw) = 50
  ∧ Kw.algorithm kw = None
  ∧ heuristic (config_of tn kw) = ENERGY_IMPACT
  ∧ Kw.timeout kw = zq (30 * 24 * 60 * 60)
  ∧ time_limit (config_of tn kw) = zq 2592000
  ∧ Kw.find_max kw = false
  ∧ (∀ P, make_problem (variable_count (Kw.Q kw)) (Kw.Q kw) (Kw.find_max kw)
            = Returns P → maximize P = false).
Proof.
  intros kw. rewrite sample_valid by done.
  repeat split; try done.
  intros P. unfold make_problem. case_match; [|done].
  by intros [= <-].
Qed.

Lemma answer_of_single r ans :
  answer_of r = Returns ans → length ans.1.1 = 1.
Proof.
  destruct r as [[[x e] reason]|e|]; simpl; [|done..].
  by intros [= <-].
Qed.

(** The answer of the solver is one solution. *)
Lemma run_qbsolv_model_single tn am fuel kw ans :
  run_qbsolv_model tn am fuel kw = Returns ans → length ans.1.1 = 1.
Proof.
  unfold run_qbsolv_model. case_match; [done|].
  destruct (make_problem _ _ _); [|done..].
  apply answer_of_single.
Qed.

Lemma convert_samples_length from to samples :
  length (convert_samples from to samples) = length samples.
Proof. destruct from, to; simpl; by rewrite ?length_fmap. Qed.

(** C2, as the code has it: the response of a successful call carries one
    row (sample, energy, number of occurrences) per solution in the answer
    of [run_qbsolv], the energies shifted by the offset of the model, one
    row for the solver of the specification; it does not carry the stop
    reason: its [info] is empty. *)
Theorem sample_response_rows run hf bqm a w r :
  (QBSolv.sample run hf bqm a w).1 = Returns r →
  (∃ samples energies counts,
     run (kw_of bqm a) = Returns (samples, energies, counts)
     ∧ record_sample r = convert_samples BINARY (vartype bqm) samples
     ∧ record_energy r = map (λ e, (e + (to_qubo bqm).2)%Qc) energies
     ∧ record_num_occurrences r = counts
     ∧ length (record_energy r) = length (record_sample r)
     ∧ length (record_num_occurrences r) = length (record_sample r)
     ∧ length (record_sample r) = length samples)
  ∧ (∀ tn am fuel, run = run_qbsolv_model tn am fuel →
       length (record_sample r) = 1)
  ∧ info r = ∅
  ∧ ¬ carries_stop_reason r.
Proof.
  intros H.
  destruct (sample_returns _ _ _ _ _ _ H)
    as (samples & energies & counts & Hrun & He & Hc & ->).
  cbn [record_sample record_energy record_num_occurrences info]. split.
  - exists samples, energies, counts.
    rewrite length_map, convert_samples_length. by repeat split.
  - split; [|split; [done|]].
    + intros tn am fuel ->. rewrite convert_samples_length.
      by apply (run_qbsolv_model_single _ _ _ _ _ Hrun).
    + intros (k & name & Hk & _). simpl in Hk. by rewrite lookup_empty in Hk.
Qed.

Lemma qubo_example_response :
  (QBSolv.sample (run_qbsolv_model tuning_example ambient_example 100) false
     qubo_example defaults empty_world).1 = Returns qubo_response.
Proof. by_evaluation. Qed.

Lemma sample_response_rows_witness :
  (QBSolv.sample (run_qbsolv_model tuning_example ambient_example 100) false
     qubo_example defaults empty_world).1 = Returns qubo_response
  ∧ info qubo_response = ∅
  ∧ length (record_sample qubo_response) = 1.
Proof.
  assert (Hcall : (QBSolv.sample
                     (run_qbsolv_model tuning_example ambient_example 100)
                     false qubo_example defaults empty_world).1
                  = Returns qubo_response) by by_evaluation.
  split; [exact Hcall|].
  pose proof (sample_response_rows
                (run_qbsolv_model tuning_example ambient_example 100) false
                qubo_example defaults empty_world qubo_response Hcall)
    as (_ & Hone & Hinfo & _).
  split; [exact Hinfo|].
  exact (Hone tuning_example ambient_example 100 eq_refl).
Defined.

(** C2 as stated fails: the call of the docstring of [sample] succeeds, and
    its response carries no stop reason. *)
Lemma sample_stop_reason_counterexample :
  (QBSolv.sample (run_qbsolv_model tuning_example ambient_example 100) false
     qubo_example defaults empty_world).1 = Returns qubo_response
  ∧ ¬ (record_sample qubo_response ≠ [] ∧ carries_stop_reason qubo_response).
Proof.
  split; [exact qubo_example_response|].
  intros [_ (k & name & Hk & _)]. simpl in Hk. by rewrite lookup_empty in Hk.
Qed.

(** * The constructor *)

Lemma extends_refl w : extends w w.
Proof. by split. Qed.

Lemma extends_trans w1 w2 w3 : extends w1 w2 → extends w2 w3 → extends w1 w3.
Proof.
  intros [Hc1 Hh1] [Hc2 Hh2]. split; [congruence|]. eauto.
Qed.

Lemma alloc_spec o w :
  alloc o w
  = (Returns (fresh (dom (heap w))),
     {| heap := <[fresh (dom (heap w)) := o]> (heap w); calls := calls w |})
  ∧ heap w !! fresh (dom (heap w)) = None.
Proof. split; [done|]. apply not_elem_of_dom, is_fresh. Qed.

Lemma extends_insert w l o :
  heap w !! l = None →
  extends w {| heap := <[l := o]> (heap w); calls := calls w |}.
Proof.
  intros Hl. split; [done|]. simpl. intros l' o' Hl'.
  rewrite lookup_insert_ne; [done|congruence].
Qed.

Lemma extends_fresh w w' l : extends w w' → heap w' !! l = None → heap w !! l = None.
Proof.
  intros [_ Hh] Hl. destruct (heap w !! l) as [o|] eqn:Ho; [|done].
  apply Hh in Ho. congruence.
Qed.

(** The lists of a dict display are new, pairwise distinct and empty. *)
Lemma empty_lists_spec names w :
  ∃ items w',
    empty_lists names w = (Returns items, w')
    ∧ extends w w'
    ∧ items.*1 = names
    ∧ NoDup items.*2
    ∧ Forall (λ kv, ∃ l, kv.2 = VRef l ∧ heap w !! l = None
                         ∧ heap w' !! l = Some (OList [])) items.
Proof.
  revert w. induction names as [|k names IH]; intros w.
  - exists [], w. repeat split; [apply extends_refl|constructor|constructor].
  - destruct (alloc_spec (OList []) w) as [Ha Hfresh].
    set (l := fresh (dom (heap w))) in *.
    set (w1 := {| heap := <[l := OList []]> (heap w); calls := calls w |}) in *.
    destruct (IH w1) as (items & w' & Hrun & Hext & Hkeys & Hnd & Hall).
    exists ((k, VRef l) :: items), w'.
    assert (Hw1 : extends w w1) by by apply extends_insert.
    assert (Hl : heap w1 !! l = Some (OList [])) by apply lookup_insert_eq.
    split.
    { simpl. unfold mbind, Py_bind, py_bind. rewrite Ha.
      fold w1. by rewrite Hrun. }
    split; [by eapply extends_trans|].
    split; [by rewrite fmap_cons, Hkeys|].
    split.
    + rewrite fmap_cons. constructor; [|done].
      intros Hin. apply list_elem_of_fmap in Hin as ([k' v] & Hv & Hin).
      simpl in Hv. subst v.
      rewrite Forall_forall in Hall.
      apply Hall in Hin as (l' & [= <-] & Hn & _).
      congruence.
    + constructor.
      * exists l. simpl. split; [done|]. split; [done|]. by apply Hext.
      * eapply Forall_impl; [exact Hall|].
        intros kv (l' & Hkv & Hn & Hs). exists l'.
        split; [done|]. split; [by eapply extends_fresh|done].
Qed.




(** * Properties of the solver *)

(** ** Maximizing a problem is minimizing its negation *)




























(** ** The conversion to a QUBO commutes with negation *)















(** ** [find_max] through the wrapper *)










(** ** Determinism *)










(** * Further properties of [sample] *)

Lemma to_qubo_add_offset c bqm :
  (to_qubo (add_offset c bqm)).1 = (to_qubo bqm).1.
Proof.
  unfold to_qubo, binary, add_offset. cbn [vartype linear quadratic offset].
  by destruct (vartype bqm).
Qed.

(** X3: the offset of the model never reaches [run_qbsolv].  A call on the
    model with another offset makes the same call of [run_qbsolv], leaves
    the same store, fails where the first fails, and returns the same
    samples, numbers of occurrences and vartype, with one energy for each
    row: only the values of the energies can differ. *)
Theorem sample_offset_unseen run hf bqm a w c :
  kw_of (add_offset c bqm) a = kw_of bqm a
  ∧ (QBSolv.sample run hf (add_offset c bqm) a w).2
    = (QBSolv.sample run hf bqm a w).2
  ∧ without_energies (QBSolv.sample run hf (add_offset c bqm) a w).1
    = without_energies (QBSolv.sample run hf bqm a w).1.
Proof.
  assert (Hkw : kw_of (add_offset c bqm) a = kw_of bqm a).
  { unfold kw_of. by rewrite to_qubo_add_offset. }
  split; [done|].
  destruct (isinstance_int (num_repeats a)) eqn:Hi;
    [|by rewrite !sample_invalid by by left].
  destruct (decide (int_value (num_repeats a) ≤ 0)%Z) as [Hn|Hp];
    [by rewrite !sample_invalid by by right|].
  rewrite !sample_valid by (done || lia). rewrite Hkw. cbn [fst snd].
  split; [done|].
  destruct (run (kw_of bqm a)) as [[[samples energies] counts]|e|]; [|done..].
  unfold after_call, finish, build_response. case_decide; [|done].
  unfold change_vartype_vectors, change_vartype.
  destruct hf;
    cbn [without_energies record_sample record_energy record_num_occurrences
         info resp_vartype vartype add_offset];
    by rewrite ?zip_with_replicate, !length_map.
Qed.

Lemma fmap_value_in_binary (samples : list (gmap nat Z)) :
  in_vartype BINARY <$> samples = samples.
Proof.
  induction samples as [|s samples IH]; [done|].
  rewrite fmap_cons, IH. f_equal. apply map_fmap_id.
Qed.

Lemma convert_samples_value_in vt (samples : list (gmap nat Z)) :
  convert_samples BINARY vt samples = in_vartype vt <$> samples.
Proof. destruct vt; [done|]. by rewrite fmap_value_in_binary. Qed.

Lemma convert_samples_back vt (samples : list (gmap nat Z)) :
  convert_samples vt BINARY (convert_samples BINARY vt samples) = samples.
Proof.
  destruct vt; [|done]. unfold convert_samples.
  induction samples as [|s samples IH]; [done|].
  rewrite !fmap_cons, IH. f_equal.
  rewrite <- map_fmap_compose. rewrite <- (map_fmap_id s) at 2.
  apply map_fmap_ext. intros v x _. simpl.
  replace (2 * x - 1 + 1)%Z with (x * 2)%Z by lia. by apply Z.div_mul.
Qed.

(** X4: the response is in the vartype of the model.  Each sample of the
    response has the variables of the sample [run_qbsolv] returned; for a
    binary model the values are the same, for a spin model a value [b]
    becomes the spin [2 * b - 1], so that binary samples give samples of
    spins [-1] and [1]; the samples of [run_qbsolv] can be read back from
    the response. *)
Theorem sample_values_in_vartype run hf bqm a w r :
  (QBSolv.sample run hf bqm a w).1 = Returns r →
  resp_vartype r = vartype bqm
  ∧ ∃ samples energies counts,
      run (kw_of bqm a) = Returns (samples, energies, counts)
      ∧ record_sample r = in_vartype (vartype bqm) <$> samples
      ∧ Forall2 (λ s x, dom s = dom x) (record_sample r) samples
      ∧ (Forall binary_valued samples →
         Forall (match vartype bqm with
                 | SPIN => spin_valued
                 | BINARY => binary_valued
                 end) (record_sample r))
      ∧ convert_samples (vartype bqm) BINARY (record_sample r) = samples.
Proof.
  intros H.
  destruct (sample_returns _ _ _ _ _ _ H)
    as (samples & energies & counts & Hrun & He & Hc & ->).
  cbn [record_sample resp_vartype]. split; [done|].
  exists samples, energies, counts. split; [done|].
  split; [apply convert_samples_value_in|].
  split; [|split; [|apply convert_samples_back]].
  - rewrite convert_samples_value_in. apply Forall2_fmap_l, Forall_Forall2_diag.
    apply Forall_forall. intros s _. apply dom_fmap_L.
  - intros Hb. rewrite convert_samples_value_in.
    destruct (vartype bqm); [|by rewrite fmap_value_in_binary].
    apply Forall_fmap. eapply Forall_impl; [exact Hb|].
    intros s Hs v x. unfold in_vartype. rewrite lookup_fmap.
    destruct (s !! v) as [b|] eqn:Hv; [|done].
    simpl. intros [= <-]. destruct (Hs v b Hv) as [-> | ->]; [by left|by right].
Qed.

Lemma sample_values_in_vartype_witness :
  (QBSolv.sample (run_qbsolv_model tuning_example ambient_example 100) false
     ising_example defaults empty_world).1 = Returns ising_response
  ∧ resp_vartype ising_response = vartype ising_example
  ∧ convert_samples SPIN BINARY (record_sample ising_response)
    = [sample_of_assignment [true; true; true]].
Proof.
  assert (Hcall : (QBSolv.sample
                     (run_qbsolv_model tuning_example ambient_example 100)
                     false ising_example defaults empty_world).1
                  = Returns ising_response) by by_evaluation.
  assert (Hrun : run_qbsolv_model tuning_example ambient_example 100
                   (kw_of ising_example defaults)
                 = Returns ([sample_of_assignment [true; true; true]],
                            [zq (-2)], [1%Z])) by by_evaluation.
  split; [exact Hcall|].
  destruct (sample_values_in_vartype
              (run_qbsolv_model tuning_example ambient_example 100) false
              ising_example defaults empty_world ising_response Hcall)
    as (Hvt & samples & energies & counts & Hrun' & _ & _ & _ & Hback).
  split; [exact Hvt|].
  rewrite Hrun in Hrun'. injection Hrun' as <- _ _. exact Hback.
Defined.

(** * The QUBO given to [run_qbsolv] *)

Lemma dict_set_fresh {K V : Type} `{EqDecision K} (k : K) (v : V) d :
  k ∉ d.*1 → dict_set k v d = d ++ [(k, v)].
Proof.
  induction d as [|[k' v'] d IH]; intros Hk; [done|].
  rewrite fmap_cons in Hk. apply not_elem_of_cons in Hk as [Hne Hk].
  simpl. case_decide as Heq; [by destruct Hne|]. by rewrite IH.
Qed.

Lemma dict_update_fresh {K V : Type} `{EqDecision K} (d items : list (K * V)) :
  NoDup items.*1 → (∀ k, k ∈ items.*1 → k ∉ d.*1) →
  dict_update d items = d ++ items.
Proof.
  unfold dict_update. revert d.
  induction items as [|[k v] items IH]; intros d Hnd Hd.
  - by rewrite app_nil_r.
  - rewrite fmap_cons in Hnd. apply NoDup_cons in Hnd as [Hk Hnd].
    simpl. rewrite dict_set_fresh by (apply Hd; rewrite fmap_cons; left).
    rewrite IH; [by rewrite <- app_assoc|done|].
    intros k' Hk'. rewrite fmap_app. apply not_elem_of_app. split.
    + apply Hd. rewrite fmap_cons. by right.
    + simpl. intros Hin. apply list_elem_of_singleton in Hin. by subst.
Qed.

Lemma dict_alter_keys {K V : Type} `{EqDecision K} (f : V → V) (k : K) d :
  (dict_alter f k d).*1 = d.*1.
Proof.
  unfold dict_alter. induction d as [|[k' v'] d IH]; [done|].
  simpl. f_equal; [by case_decide|done].
Qed.

(** The loop of [spin_to_binary] keeps the variables of the linear biases
    and sets one quadratic bias, four times the coupling, for each
    interaction. *)
Lemma foldl_spin_step (quad : list (nat * nat * Qc)) l0 q0 :
  NoDup (q0.*1 ++ quad.*1) →
  (foldl spin_step (l0, q0) quad).1.*1 = l0.*1
  ∧ (foldl spin_step (l0, q0) quad).2
    = q0 ++ map (λ e, (e.1, (zq 4 * e.2)%Qc)) quad.
Proof.
  revert l0 q0. induction quad as [|[[u v] b] quad IH]; intros l0 q0 Hq.
  - simpl. by rewrite app_nil_r.
  - rewrite fmap_cons in Hq. simpl in Hq.
    assert (Hfresh : (u, v) ∉ q0.*1).
    { intros Hm. apply NoDup_app in Hq as (_ & Hdis & _).
      apply (Hdis _ Hm). left. }
    change (foldl spin_step (l0, q0) ((u, v, b) :: quad))
      with (foldl spin_step (spin_step (l0, q0) (u, v, b)) quad).
    set (l1 := dict_alter (λ c, (c - zq 2 * b)%Qc) v
                 (dict_alter (λ c, (c - zq 2 * b)%Qc) u l0)).
    assert (Hstep : spin_step (l0, q0) (u, v, b)
                    = (l1, q0 ++ [(u, v, (zq 4 * b)%Qc)])).
    { unfold spin_step. cbn [fst snd]. by rewrite dict_set_fresh. }
    rewrite Hstep.
    assert (Hk1 : l1.*1 = l0.*1) by (unfold l1; by rewrite !dict_alter_keys).
    destruct (IH l1 (q0 ++ [(u, v, (zq 4 * b)%Qc)])) as (Hkeys & Hquad).
    + rewrite fmap_app. simpl. by rewrite <- app_assoc.
    + split; [by rewrite Hkeys|].
      rewrite Hquad. simpl. by rewrite <- app_assoc.
Qed.

Lemma diagonal_keys (l : list (nat * Qc)) :
  (diagonal l).*1 = (λ v, (v, v)) <$> l.*1.
Proof. induction l as [|[v b] l IH]; [done|]. simpl. by f_equal. Qed.

Lemma diagonal_entry (l : list (nat * Qc)) k b :
  (k, b) ∈ diagonal l ↔ ∃ v, (v, b) ∈ l ∧ k = (v, v).
Proof.
  unfold diagonal. change (map ?f l) with (f <$> l).
  rewrite list_elem_of_fmap. split.
  - intros ([v b'] & [= -> ->] & Hin). by exists v.
  - intros (v & Hin & ->). by exists (v, b).
Qed.

(** On a consistent model the update of [to_qubo] overwrites nothing: every
    interaction keeps its entry beside the diagonal entries. *)
Lemma dict_update_diagonal (l : list (nat * Qc)) (q : list (nat * nat * Qc)) :
  NoDup l.*1 → Forall (λ e, e.1.1 ≠ e.1.2) q →
  dict_update q (map (λ vb, ((vb.1, vb.1), vb.2)) l) = q ++ diagonal l.
Proof.
  intros Hl Hq. fold (diagonal l). apply dict_update_fresh.
  - rewrite diagonal_keys. apply NoDup_fmap_2_strong; [|done].
    by intros v1 v2 _ _ [= ->].
  - intros k Hk Hin. rewrite diagonal_keys in Hk.
    apply list_elem_of_fmap in Hk as (v & -> & _).
    apply list_elem_of_fmap in Hin as ([[u1 u2] b] & Hk & Hin).
    simpl in Hk. injection Hk as <- <-.
    rewrite Forall_forall in Hq. by apply (Hq _ Hin).
Qed.

Lemma consistent_no_loop bqm :
  consistent bqm → Forall (λ e : nat * nat * Qc, e.1.1 ≠ e.1.2) (quadratic bqm).
Proof.
  intros (_ & _ & Hin). eapply Forall_impl; [exact Hin|]. by intros e (? & _).
Qed.

(** [to_qubo] on a consistent binary model: the interactions and the
    linear biases on the diagonal. *)
Lemma to_qubo_binary bqm :
  consistent bqm → vartype bqm = BINARY →
  to_qubo bqm = (quadratic bqm ++ diagonal (linear bqm), offset bqm).
Proof.
  intros Hc Hvt. unfold to_qubo, binary. rewrite Hvt.
  rewrite dict_update_diagonal; [done|apply Hc|by apply consistent_no_loop].
Qed.

(** [to_qubo] on a consistent spin model: the interactions times four and
    a diagonal entry for each variable. *)
Lemma to_qubo_spin bqm :
  consistent bqm → vartype bqm = SPIN →
  ∃ l, l.*1 = (linear bqm).*1
       ∧ (to_qubo bqm).1
         = map (λ e, (e.1, (zq 4 * e.2)%Qc)) (quadratic bqm) ++ diagonal l.
Proof.
  intros Hc Hvt. pose proof (consistent_no_loop _ Hc) as Hloop.
  destruct Hc as (Hl & Hq & _).
  unfold to_qubo, binary. rewrite Hvt.
  unfold spin_to_binary. cbn [fst snd linear quadratic offset].
  set (l2 := map (λ vb, (vb.1, (zq 2 * vb.2)%Qc)) (linear bqm)).
  assert (Hk2 : l2.*1 = (linear bqm).*1).
  { unfold l2. clear. induction (linear bqm) as [|[v b] l IH]; [done|].
    simpl. by f_equal. }
  destruct (foldl_spin_step (quadratic bqm) l2 []) as (Hkeys & Hquad); [done|].
  exists (foldl spin_step (l2, []) (quadratic bqm)).1.
  split; [by rewrite Hkeys|].
  rewrite Hquad, app_nil_l. rewrite dict_update_diagonal; [done| |].
  - by rewrite Hkeys, Hk2.
  - clear -Hloop. induction (quadratic bqm) as [|e q IH]; [done|].
    apply Forall_cons in Hloop as [He Hloop]. simpl.
    apply Forall_cons. split; [done|by apply IH].
Qed.

(** The keys of the QUBO of a consistent model, as a set: the interactions
    and the diagonal, each once. *)
Lemma to_qubo_keys bqm :
  consistent bqm →
  NoDup (to_qubo bqm).1.*1
  ∧ ∀ k, k ∈ (to_qubo bqm).1.*1
         ↔ k ∈ (quadratic bqm).*1 ∨ ∃ v, v ∈ (linear bqm).*1 ∧ k = (v, v).
Proof.
  intros Hc. pose proof (consistent_no_loop _ Hc) as Hloop.
  assert (Hkeys : ∃ l, l.*1 = (linear bqm).*1
            ∧ (to_qubo bqm).1.*1 = (quadratic bqm).*1 ++ (diagonal l).*1).
  { destruct (vartype bqm) eqn:Hvt.
    - destruct (to_qubo_spin bqm Hc Hvt) as (l & Hl & ->). exists l.
      split; [done|]. rewrite fmap_app. f_equal.
      clear. induction (quadratic bqm) as [|e q IH]; [done|].
      simpl. by f_equal.
    - exists (linear bqm). split; [done|].
      rewrite (to_qubo_binary bqm Hc Hvt). cbn [fst]. by rewrite fmap_app. }
  destruct Hkeys as (l & Hl & ->). rewrite diagonal_keys, Hl.
  destruct Hc as (Hlin & Hquad & _). split.
  - apply NoDup_app. split; [done|]. split.
    + intros k Hk Hd. apply list_elem_of_fmap in Hd as (v & -> & _).
      apply list_elem_of_fmap in Hk as ([[u1 u2] b] & Hk & Hin).
      simpl in Hk. injection Hk as <- <-.
      rewrite Forall_forall in Hloop. by apply (Hloop _ Hin).
    + apply NoDup_fmap_2_strong; [|done]. by intros v1 v2 _ _ [= ->].
  - intros k. rewrite elem_of_app. split; intros [Hk|Hk]; [by left| |by left|].
    + right. apply list_elem_of_fmap in Hk as (v & -> & Hv). by exists v.
    + right. destruct Hk as (v & Hv & ->). apply list_elem_of_fmap. by exists v.
Qed.

(** X6: the QUBO that [run_qbsolv] is given.  On a consistent model its
    keys are the interactions of the model and one diagonal key [(v, v)] for
    each variable, whatever its bias, each key once: no variable is missing
    from the problem and no entry replaces another.  For a binary model the
    biases are those of the model; for a spin model an interaction [J] has
    the bias [4 J]. *)
Theorem sample_qubo_entries run hf bqm a w :
  consistent bqm →
  isinstance_int (num_repeats a) = true → (0 < int_value (num_repeats a))%Z →
  ∃ kw,
    calls (QBSolv.sample run hf bqm a w).2 = calls w ++ [kw]
    ∧ NoDup (Kw.Q kw).*1
    ∧ (∀ k, k ∈ (Kw.Q kw).*1
            ↔ k ∈ (quadratic bqm).*1 ∨ ∃ v, v ∈ (linear bqm).*1 ∧ k = (v, v))
    ∧ (vartype bqm = BINARY →
       ∀ k b, (k, b) ∈ Kw.Q kw
              ↔ (k, b) ∈ quadratic bqm ∨ ∃ v, (v, b) ∈ linear bqm ∧ k = (v, v))
    ∧ (vartype bqm = SPIN →
       ∀ k b, (k, b) ∈ quadratic bqm → (k, (zq 4 * b)%Qc) ∈ Kw.Q kw).
Proof.
  intros Hc Hi Hp. exists (kw_of bqm a).
  rewrite sample_valid by done. split; [done|]. cbn [kw_of Kw.Q].
  destruct (to_qubo_keys bqm Hc) as [Hnd Hkeys].
  split; [done|]. split; [done|]. split.
  - intros Hvt k b. rewrite (to_qubo_binary bqm Hc Hvt). cbn [fst].
    by rewrite elem_of_app, diagonal_entry.
  - intros Hvt k b Hin.
    destruct (to_qubo_spin bqm Hc Hvt) as (l & _ & ->).
    apply elem_of_app. left.
    change (map ?f ?q) with (f <$> q). apply list_elem_of_fmap.
    by exists (k, b).
Qed.

Lemma sample_qubo_entries_witness :
  consistent ising_example
  ∧ isinstance_int (num_repeats defaults) = true
  ∧ (0 < int_value (num_repeats defaults))%Z
  ∧ ∃ kw,
      calls (QBSolv.sample (run_qbsolv_model tuning_example ambient_example 100)
               false ising_example defaults empty_world).2 = [kw]
      ∧ NoDup (Kw.Q kw).*1
      ∧ ((0, 1, (zq 4 * zq (-1))%Qc) ∈ Kw.Q kw).
Proof.
  assert (Hc : consistent ising_example) by (unfold consistent; by_evaluation).
  split; [exact Hc|]. split; [reflexivity|]. split; [reflexivity|].
  destruct (sample_qubo_entries
              (run_qbsolv_model tuning_example ambient_example 100) false
              ising_example defaults empty_world Hc eq_refl eq_refl)
    as (kw & Hcalls & Hnd & _ & _ & Hspin).
  exists kw. split; [exact Hcalls|]. split; [exact Hnd|].
  apply (Hspin eq_refl). simpl. left.
Defined.

Lemma binary_vartype bqm : vartype (binary bqm) = BINARY.
Proof.
  unfold binary. destruct (vartype bqm) eqn:Hvt; [|done].
  by destruct (spin_to_binary _ _ _) as [[l q] o].
Qed.

Lemma to_qubo_of_binary bqm : to_qubo (binary bqm) = to_qubo bqm.
Proof.
  unfold to_qubo. f_equal; f_equal; unfold binary at 1 3;
    by rewrite binary_vartype.
Qed.

(** X7: a spin model is solved as its binary form.  A call on a model and
    the call on [bqm.binary] make the same call of [run_qbsolv] and have the
    same outcome: the same energies and numbers of occurrences, and the
    samples of the second in the vartype of the model. *)
Theorem sample_as_binary run hf bqm a w :
  kw_of (binary bqm) a = kw_of bqm a
  ∧ QBSolv.sample run hf bqm a w
    = (response_in (vartype bqm) (QBSolv.sample run hf (binary bqm) a w).1,
       (QBSolv.sample run hf (binary bqm) a w).2).
Proof.
  assert (Hkw : kw_of (binary bqm) a = kw_of bqm a).
  { unfold kw_of. by rewrite to_qubo_of_binary. }
  split; [done|].
  destruct (isinstance_int (num_repeats a)) eqn:Hi;
    [|by rewrite !sample_invalid by by left].
  destruct (decide (int_value (num_repeats a) ≤ 0)%Z) as [Hn|Hp];
    [by rewrite !sample_invalid by by right|].
  rewrite !sample_valid by (done || lia). rewrite Hkw. cbn [fst snd]. f_equal.
  destruct (run (kw_of bqm a)) as [[[samples energies] counts]|e|]; [|done..].
  unfold after_call, finish, build_response. case_decide; [|done].
  rewrite to_qubo_of_binary, binary_vartype.
  by destruct hf.
Qed.

(** * Instances and their objects *)

(** The store after [QBSolv()]: the instance has the two attributes and no
    other, and every object it reaches is new. *)
Lemma new_spec w :
  ∃ self props params items w',
    QBSolv.new w = (Returns self, w')
    ∧ heap w' !! self
      = Some (OInstance (<["parameters" := VRef params]>
                           (<["properties" := VRef props]> ∅)))
    ∧ heap w' !! props = Some (ODict ∅)
    ∧ heap w' !! params = Some (ODict (list_to_map items))
    ∧ items.*1 = parameter_names
    ∧ Forall (λ kv, ∃ l, kv.2 = VRef l ∧ heap w !! l = None
                         ∧ heap w' !! l = Some (OList [])) items
    ∧ heap w !! self = None
    ∧ heap w !! props = None
    ∧ heap w !! params = None
    ∧ extends w w'.
Proof.
  destruct (alloc_spec (OInstance ∅) w) as [Ha0 Hf0].
  set (self := fresh (dom (heap w))) in *.
  set (w0 := {| heap := <[self := OInstance ∅]> (heap w); calls := calls w |}) in *.
  destruct (alloc_spec (ODict ∅) w0) as [Ha1 Hf1].
  set (props := fresh (dom (heap w0))) in *.
  set (w1 := {| heap := <[props := ODict ∅]> (heap w0); calls := calls w0 |}) in *.
  assert (Hs0 : heap w0 !! self = Some (OInstance ∅)) by apply lookup_insert_eq.
  assert (Hne1 : props ≠ self) by congruence.
  assert (Hs1 : heap w1 !! self = Some (OInstance ∅)).
  { simpl. by rewrite lookup_insert_ne. }
  set (attrs1 := <["properties" := VRef props]> (∅ : gmap string pyref)).
  set (w2 := {| heap := <[self := OInstance attrs1]> (heap w1); calls := calls w1 |}).
  assert (Hset1 : setattr self "properties" (VRef props) w1 = (Returns (), w2)).
  { unfold setattr. by rewrite Hs1. }
  destruct (empty_lists_spec parameter_names w2)
    as (items & w3 & Hrun & Hext & Hkeys & Hnd & Hall).
  destruct (alloc_spec (ODict (list_to_map items)) w3) as [Ha3 Hf3].
  set (params := fresh (dom (heap w3))) in *.
  set (m := list_to_map items : gmap string pyref) in *.
  set (w4 := {| heap := <[params := ODict m]> (heap w3); calls := calls w3 |}) in *.
  assert (Hs2 : heap w2 !! self = Some (OInstance attrs1)) by apply lookup_insert_eq.
  assert (Hp2 : heap w2 !! props = Some (ODict ∅)).
  { simpl. rewrite lookup_insert_ne by done. apply lookup_insert_eq. }
  assert (Hs3 : heap w3 !! self = Some (OInstance attrs1)) by by apply Hext.
  assert (Hp3 : heap w3 !! props = Some (ODict ∅)) by by apply Hext.
  assert (Hne3 : params ≠ self) by congruence.
  assert (Hne3' : params ≠ props) by congruence.
  assert (Hs4 : heap w4 !! self = Some (OInstance attrs1)).
  { simpl. by rewrite lookup_insert_ne. }
  set (attrs2 := <["parameters" := VRef params]> attrs1).
  set (w5 := {| heap := <[self := OInstance attrs2]> (heap w4); calls := calls w4 |}).
  assert (Hset2 : setattr self "parameters" (VRef params) w4 = (Returns (), w5)).
  { unfold setattr. by rewrite Hs4. }
  assert (He02 : extends w w2).
  { split; [done|]. intros l o Hl.
    assert (Hl0 : heap w0 !! l = Some o)
      by by apply (extends_insert w self (OInstance ∅) Hf0).
    assert (self ≠ l) by congruence. assert (props ≠ l) by congruence.
    simpl. by rewrite !lookup_insert_ne. }
  assert (He35 : ∀ l o, l ≠ self → heap w3 !! l = Some o → heap w5 !! l = Some o).
  { intros l o Hne Hl. simpl. rewrite !lookup_insert_ne; [done|congruence..]. }
  exists self, props, params, items, w5.
  split.
  { unfold QBSolv.new, QBSolv.__init__, mbind, Py_bind, py_bind.
    rewrite Ha0. fold self w0. rewrite Ha1. fold props w1. rewrite Hset1, Hrun.
    fold m. rewrite Ha3. fold params w4. by rewrite Hset2. }
  split; [apply lookup_insert_eq|].
  split; [by apply He35|].
  split.
  { simpl. rewrite lookup_insert_ne by done. apply lookup_insert_eq. }
  split; [done|].
  split.
  { eapply Forall_impl; [exact Hall|].
    intros kv (l & Hv & Hn & Hs). exists l. split; [done|].
    split; [by eapply extends_fresh|].
    apply He35; [congruence|done]. }
  split; [done|].
  split; [by apply (extends_fresh _ _ _ (extends_insert w self (OInstance ∅) Hf0))|].
  split.
  { eapply extends_fresh; [exact He02|]. by eapply extends_fresh. }
  split; [simpl; destruct Hext as [-> _]; done|].
  intros l o Hl.
  assert (l ≠ self) by congruence.
  apply He35; [done|]. apply Hext. by apply He02.
Qed.

Lemma class_attrs_no_object name l : class_attrs !! name ≠ Some (VRef l).
Proof.
  unfold class_attrs. intros H.
  apply lookup_insert_Some in H as [[_ H]|[_ H]]; [done|].
  by apply lookup_singleton_Some in H as [_ H].
Qed.

(** The objects an initialised instance refers to are its two dicts. *)
Lemma getattr_object w self props params name l :
  heap w !! self
  = Some (OInstance (<["parameters" := VRef params]>
                       (<["properties" := VRef props]> ∅))) →
  getattr w self name = Some (VRef l) →
  (name = "properties" ∧ l = props) ∨ (name = "parameters" ∧ l = params).
Proof.
  intros Hs. unfold getattr. rewrite Hs.
  destruct (decide (name = "parameters")) as [->|Hn1].
  { rewrite lookup_insert_eq. intros [= <-]. by right. }
  rewrite lookup_insert_ne by done.
  destruct (decide (name = "properties")) as [->|Hn2].
  { rewrite lookup_insert_eq. intros [= <-]. by left. }
  rewrite lookup_insert_ne, lookup_empty by done.
  intros H. by apply class_attrs_no_object in H.
Qed.


(** Every object a new instance reaches was made by its construction, and
    later allocations leave this as it is. *)
Lemma reaches_new w w' w'' self props params items l :
  heap w' !! self
  = Some (OInstance (<["parameters" := VRef params]>
                       (<["properties" := VRef props]> ∅))) →
  heap w' !! props = Some (ODict ∅) →
  heap w' !! params = Some (ODict (list_to_map items)) →
  Forall (λ kv, ∃ l, kv.2 = VRef l ∧ heap w !! l = None
                     ∧ heap w' !! l = Some (OList [])) items →
  heap w !! self = None → heap w !! props = None → heap w !! params = None →
  extends w' w'' →
  reaches w'' self l →
  heap w !! l = None ∧ is_Some (heap w' !! l).
Proof.
  intros Hs Hp Hq Hall Hfs Hfp Hfq [_ Hext] Hl.
  assert (Hattr : ∀ d, attribute_object w'' self d → d = props ∨ d = params).
  { intros d [name Hd].
    destruct (getattr_object w'' self props params name d (Hext _ _ Hs) Hd)
      as [[_ ->]|[_ ->]]; [by left|by right]. }
  destruct Hl as [->|[Hl|(d & Hd & m & k & Hm & Hk)]].
  - by rewrite Hs.
  - destruct (Hattr _ Hl) as [-> | ->]; [by rewrite Hp|by rewrite Hq].
  - destruct (Hattr _ Hd) as [-> | ->].
    + rewrite (Hext _ _ Hp) in Hm. injection Hm as <-.
      by rewrite lookup_empty in Hk.
    + rewrite (Hext _ _ Hq) in Hm. injection Hm as <-.
      apply elem_of_list_to_map_2 in Hk.
      rewrite Forall_forall in Hall.
      destruct (Hall _ Hk) as (l' & [= <-] & Hn & Hs'). by rewrite Hs'.
Qed.

(** X8: instances share nothing.  Of two instances made one after the
    other, no object that the first reaches (the instance, its [properties]
    and [parameters] dicts, the lists in them) is reached by the second, and
    making the second leaves every object of the first as it was; the two
    [properties] dicts are two objects, and so are the two [parameters]
    dicts. *)
Theorem new_instances_share_nothing w :
  ∃ s1 w1 s2 w2,
    QBSolv.new w = (Returns s1, w1)
    ∧ QBSolv.new w1 = (Returns s2, w2)
    ∧ (∀ l, reaches w2 s1 l → ¬ reaches w2 s2 l)
    ∧ (∀ l, reaches w2 s1 l →
         is_Some (heap w1 !! l) ∧ heap w2 !! l = heap w1 !! l)
    ∧ (∀ name, getattr w2 s1 name = getattr w1 s1 name)
    ∧ (∀ name, name = "properties" ∨ name = "parameters" →
         ∃ l1 l2, getattr w2 s1 name = Some (VRef l1)
                  ∧ getattr w2 s2 name = Some (VRef l2) ∧ l1 ≠ l2).
Proof.
  destruct (new_spec w)
    as (s1 & p1 & q1 & items1 & w1 & Hnew1 & Hs1 & Hp1 & Hq1 & _ & Hall1
        & Hfs1 & Hfp1 & Hfq1 & _).
  destruct (new_spec w1)
    as (s2 & p2 & q2 & items2 & w2 & Hnew2 & Hs2 & Hp2 & Hq2 & _ & Hall2
        & Hfs2 & Hfp2 & Hfq2 & Hext).
  exists s1, w1, s2, w2. split; [done|]. split; [done|].
  assert (Hold : ∀ l, reaches w2 s1 l → is_Some (heap w1 !! l)).
  { intros l Hl.
    by destruct (reaches_new w w1 w2 s1 p1 q1 items1 l Hs1 Hp1 Hq1 Hall1
                   Hfs1 Hfp1 Hfq1 Hext Hl). }
  split; [|split; [|split]].
  - intros l Hl1 Hl2. apply Hold in Hl1 as [o Ho].
    destruct (reaches_new w1 w2 w2 s2 p2 q2 items2 l Hs2 Hp2 Hq2 Hall2
                Hfs2 Hfp2 Hfq2 (extends_refl w2) Hl2) as [Hn _].
    congruence.
  - intros l Hl. split; [by apply Hold|].
    destruct (Hold l Hl) as [o Ho]. rewrite Ho. by apply Hext.
  - intros name. unfold getattr. by rewrite (proj2 Hext _ _ Hs1), Hs1.
  - intros name [-> | ->]; [exists p1, p2|exists q1, q2]; unfold getattr;
      rewrite (proj2 Hext _ _ Hs1), Hs2.
    + rewrite !lookup_insert_ne, !lookup_insert_eq by done.
      do 2 (split; [done|]). congruence.
    + rewrite !lookup_insert_eq. do 2 (split; [done|]). congruence.
Qed.
